(** * solara/comm.py: the orphan-comm tracker

    A shallow embedding of [solara/comm.py] and the properties of its
    registry of creation stack traces.

    The module is 26 lines of Python: a guarded [import comm], the
    module-level dictionary [orphan_comm_stacks], and, depending on whether
    the import succeeded, either a [DummyComm] subclass of the library's
    [BaseComm] with a no-op [publish_msg], the factory [create_dummy_comm]
    and the assignment [comm.create_comm = create_dummy_comm], or an empty
    placeholder class [DummyComm].

    Python state is made explicit: the module's globals and the live
    objects form a [World]; functions of the module are computations in a
    state-and-exception monad over it.  What belongs to the [comm] library
    or to the interpreter (the constructor of [BaseComm], the library's own
    factory, the address the allocator picks, the frames, traceback limit
    and source line the interpreter holds at a call) is taken as a
    parameter. *)

From Stdlib Require Import Ascii.
From stdpp Require Import gmap strings list fin_maps pretty.

Open Scope string_scope.

(** ** Python values, exceptions and call arguments *)

(** Object identity, [id(obj)]: dictionaries hash instances of [BaseComm]
    and of plain classes by identity, since neither defines [__eq__] or
    [__hash__]. *)
Abbreviation loc := positive.

#[warnings="-register-all"] Inductive PyVal :=
  | VNone
  | VBool (b : bool)
  | VInt (z : Z)
  | VStr (s : string)
  | VList (vs : list PyVal)
  | VDict (kvs : list (string * PyVal))
  | VRef (l : loc).

Record Exn := mkExn { exn_class : string; exn_message : string }.

(** [*args, **kwargs] *)
Record Args := mkArgs {
  positional : list PyVal;
  keywords : list (string * PyVal)
}.

Definition no_args : Args := mkArgs [] [].

(** ** Stack frames and [traceback.format_stack] *)

Record Frame := mkFrame {
  filename : string;
  lineno : N;
  name : string;
  line : string          (* the stripped source line; empty when unavailable *)
}.

Definition dquote : string := String "034"%char EmptyString.
Definition newline : string := String "010"%char EmptyString.

(** One entry of [traceback.format_stack()]: the standard library renders a
    frame as [  File "<filename>", line <lineno>, in <name>] followed by a
    newline, and, when the source line is known, by that line indented by
    four spaces and a newline. *)
Definition format_frame (f : Frame) : string :=
  "  File " +:+ dquote +:+ filename f +:+ dquote +:+ ", line " +:+
  pretty (lineno f) +:+ ", in " +:+ name f +:+ newline +:+
  (if decide (line f = "") then "" else "    " +:+ line f +:+ newline).

(** Where a frame is: [filename], [lineno] and [name], which is what the
    standard library compares to detect recursion. *)
Definition place (f : Frame) : string * N * string :=
  (filename f, lineno f, name f).

(** [traceback._RECURSIVE_CUTOFF] *)
Definition RECURSIVE_CUTOFF : nat := 3.

(** The entry that stands for the frames of a run beyond the cutoff. *)
Definition repeated_note (count : nat) : string :=
  "  [Previous line repeated " +:+ pretty count +:+ " more time" +:+
  (if decide (1 < count) then "s" else "") +:+ "]" +:+ newline.

(** The loop of [StackSummary.format]: [last] is the place of the previous
    frame and [count] the length of the current run of frames at that
    place.  A frame is rendered unless it is beyond the cutoff of its run;
    when a run longer than the cutoff ends, one note replaces the frames
    left out. *)
Fixpoint format_summary (last : option (string * N * string)) (count : nat)
    (frames : list Frame) : list string :=
  match frames with
  | [] =>
      if decide (RECURSIVE_CUTOFF < count)
      then [repeated_note (count - RECURSIVE_CUTOFF)] else []
  | f :: rest =>
      if decide (last = Some (place f)) then
        if decide (RECURSIVE_CUTOFF < S count)
        then format_summary last (S count) rest
        else format_frame f :: format_summary last (S count) rest
      else
        (if decide (RECURSIVE_CUTOFF < count)
         then [repeated_note (count - RECURSIVE_CUTOFF)] else [])
        ++ format_frame f :: format_summary (Some (place f)) 1 rest
  end.

(** [traceback.format_list] *)
Definition format_list (frames : list Frame) : list string :=
  format_summary None 0 frames.

(** [traceback.extract_stack] with no [limit] argument: the limit is
    [sys.tracebacklimit] when that is set, a negative value counting as 0,
    and it keeps that many frames counted from the innermost one.  [frames]
    are the active frames, oldest first. *)
Definition extract_stack (tracebacklimit : option Z) (frames : list Frame)
    : list Frame :=
  match tracebacklimit with
  | None => frames
  | Some n =>
      let limit := if decide (n < 0)%Z then 0%Z else n in
      drop (length frames - Z.to_nat limit) frames
  end.

(** [traceback.format_stack()] with its default arguments. *)
Definition format_stack (tracebacklimit : option Z) (frames : list Frame)
    : list string :=
  format_list (extract_stack tracebacklimit frames).

(** Whether [StackSummary.format] leaves a frame out: some run of frames
    at one place is longer than the cutoff. *)
Fixpoint has_long_run (last : option (string * N * string)) (count : nat)
    (frames : list Frame) : bool :=
  match frames with
  | [] => false
  | f :: rest =>
      if decide (last = Some (place f))
      then bool_decide (RECURSIVE_CUTOFF < S count) || has_long_run last (S count) rest
      else has_long_run (Some (place f)) 1 rest
  end.


(** The limit lets the innermost frame through: it is not set, or it is
    positive. *)
Definition keeps_innermost (tracebacklimit : option Z) : Prop :=
  match tracebacklimit with
  | None => True
  | Some n => (0 < n)%Z
  end.

(** What a limit leaves for the frames above the innermost one. *)
Definition caller_limit (tracebacklimit : option Z) : option Z :=
  (λ n, n - 1)%Z <$> tracebacklimit.

(** What the interpreter holds when the factory runs line 18, as far as
    [traceback.format_stack] reads it. *)
Record CallState := mkCallState {
  frames : list Frame;         (* the caller's active frames, oldest first *)
  tracebacklimit : option Z;   (* sys.tracebacklimit, an integer; None when
                                  not set *)
  line_18 : string             (* linecache's text for line 18 of the module,
                                  stripped; empty when it cannot be read *)
}.

(** [sep.join(parts)] *)
Definition join (sep : string) (parts : list string) : string :=
  String.concat sep parts.

(** ** Classes and method resolution *)

(** The function objects the module defines. *)
Inductive Method :=
  | def_publish_msg.       (* line 13 *)

Inductive Base :=
  | BaseComm               (* comm.base_comm.BaseComm *)
  | object.

Global Instance Base_eq_dec : EqDecision Base.
Proof. solve_decision. Defined.

Record Class := mkClass {
  cls_bases : list Base;
  cls_dict : gmap string Method
}.

(** line 12-14: [class DummyComm(comm.base_comm.BaseComm)] with
    [publish_msg] overridden. *)
Definition DummyComm_noop : Class :=
  mkClass [BaseComm] {[ "publish_msg" := def_publish_msg ]}.

(** line 25-26: [class DummyComm: pass]. *)
Definition DummyComm_placeholder : Class :=
  mkClass [object] ∅.

(** The attributes every instance inherits from [object]. *)
Definition object_attrs : list string :=
  [ "__class__"; "__delattr__"; "__dir__"; "__doc__"; "__eq__"; "__format__";
    "__ge__"; "__getattribute__"; "__gt__"; "__hash__"; "__init__";
    "__init_subclass__"; "__le__"; "__lt__"; "__ne__"; "__new__";
    "__reduce__"; "__reduce_ex__"; "__repr__"; "__setattr__"; "__sizeof__";
    "__str__"; "__subclasshook__" ].

Inductive Resolved :=
  | Own (m : Method)       (* found in the class's own dictionary *)
  | Inherited (b : Base)   (* left to a base class *)
  | Missing.               (* AttributeError *)

(** Attribute lookup on an instance, for the names a method call needs: the
    class's own dictionary first, then its bases.  What [BaseComm] offers
    is the library's business; [object] offers [object_attrs]. *)
Definition resolve (c : Class) (attr : string) : Resolved :=
  match cls_dict c !! attr with
  | Some m => Own m
  | None =>
      if decide (BaseComm ∈ cls_bases c) then Inherited BaseComm
      else if decide (attr ∈ object_attrs) then Inherited object
      else Missing
  end.

(** ** The callables a factory slot can hold *)

Inductive Callable :=
  | library_create_comm    (* whatever [comm.create_comm] was before the import *)
  | the_create_dummy_comm. (* the function defined at line 16 *)

Global Instance Callable_eq_dec : EqDecision Callable.
Proof. solve_decision. Defined.

(** The [comm] library as the shim sees it: a module object with the
    attribute [create_comm]. *)
Record CommLib := mkCommLib { create_comm : Callable }.

(** ** What the rest of the process can do with the module

    The allocator's choice of address and the state of the interpreter at
    the call are part of the event. *)
Inductive Event :=
  | Call_create_dummy_comm (l : loc) (cs : CallState) (a : Args)
      (* solara.comm.create_dummy_comm( *a) *)
  | Call_comm_create_comm (l : loc) (cs : CallState) (a : Args)
      (* import comm; comm.create_comm( *a): the library's entry point, as
         any module of the process reaches it *)
  | Call_DummyComm (l : loc) (a : Args)
      (* DummyComm( *a), not through any factory *)
  | Call_publish_msg (self : loc) (msg_type data metadata buffers : PyVal)
      (keys : list (string * PyVal))
      (* self.publish_msg(msg_type, data, metadata, buffers, **keys) *)
  | Collect (l : loc).
      (* the garbage collector frees an object nothing refers to *)

(** An instance the tracking factory returned, with the state of the
    interpreter at that call. *)
Abbreviation Created := (loc * CallState)%type.

(** ** A sample environment

    One possible [comm] library and caller, to run the module on: its
    [BaseComm.__init__] rejects keyword arguments it does not know and
    otherwise registers the new comm with the comm manager, whose state is
    the list of registered comms. *)
Definition sample_known_keywords : list string :=
  ["target_name"; "data"; "metadata"; "buffers"; "comm_id"; "primary";
   "target_module"; "topic"].

Definition sample_init (l : loc) (a : Args) (s : list loc)
    : list loc * option Exn :=
  if forallb (λ kv, bool_decide (kv.1 ∈ sample_known_keywords)) (keywords a)
  then (l :: s, None)
  else (s, Some (mkExn "TypeError" "unexpected keyword argument")).

Definition sample_factory (l : loc) (a : Args) (s : list loc)
    : list loc * (Exn + Class) :=
  (l :: s, inr (mkClass [BaseComm] ∅)).

Definition sample_file : string := "solara/comm.py".

Definition sample_caller : Frame :=
  mkFrame "app.py" 7 "<module>" "w = widgets.Button()".

(** The interpreter at a call from [sample_caller]: no traceback limit,
    the module's source readable. *)
Definition sample_line_18 : string :=
  "stacktrace = " +:+ dquote +:+ dquote +:+ ".join(traceback.format_stack())".

Definition sample_call : CallState :=
  mkCallState [sample_caller] None sample_line_18.

(** The same call with [sys.tracebacklimit = 0]. *)
Definition sample_call_limit_0 : CallState :=
  mkCallState [sample_caller] (Some 0%Z) sample_line_18.

(** A frame of a recursive function. *)
Definition sample_recursive : Frame :=
  mkFrame "app.py" 3 "walk" "walk(node.parent)".

Definition sample_lib : CommLib := mkCommLib library_create_comm.

Definition sample_bad_args : Args := mkArgs [] [("colour", VStr "red")].

Section Tracker.

(** The state of third-party code (the comm manager and the like), and the
    two third-party functions the shim runs: [BaseComm.__init__] on a new
    instance at address [l], which either accepts the arguments or raises,
    and the library's own factory. *)
Context {L : Type}.
Variable BaseComm_init : loc → Args → L → L * option Exn.
Variable library_factory : loc → Args → L → L * (Exn + Class).

(** [__file__] of the module, as it appears in stack traces. *)
Variable module_file : string.

(** ** The world: module globals and live objects *)

Record World := mkWorld {
  comm : option CommLib;                     (* global [comm]; None after ImportError *)
  orphan_comm_stacks : gmap loc string;      (* line 9 *)
  DummyComm : Class;                         (* line 12 or line 25 *)
  create_dummy_comm_global : option Callable;(* bound at line 16 only *)
  heap : gmap loc Class;                     (* live instances and their class *)
  third_party : L
}.

Definition set_registry (r : gmap loc string) (w : World) : World :=
  mkWorld (comm w) r (DummyComm w) (create_dummy_comm_global w) (heap w)
          (third_party w).

Definition set_heap (h : gmap loc Class) (w : World) : World :=
  mkWorld (comm w) (orphan_comm_stacks w) (DummyComm w)
          (create_dummy_comm_global w) h (third_party w).

Definition set_third_party (s : L) (w : World) : World :=
  mkWorld (comm w) (orphan_comm_stacks w) (DummyComm w)
          (create_dummy_comm_global w) (heap w) s.

(** ** Computations: state and exceptions *)

Definition M (A : Type) : Type := World → (Exn + A) * World.

Global Instance M_ret : MRet M := λ A (x : A) w, (inr x, w).
Global Instance M_bind : MBind M := λ A B (f : A → M B) (m : M A) w,
  match m w with
  | (inl e, w') => (inl e, w')
  | (inr x, w') => f x w'
  end.

Definition raise {A} (e : Exn) : M A := λ w, (inl e, w).
Definition get_world : M World := λ w, (inr w, w).
Definition modify (f : World → World) : M () := λ w, (inr (), f w).

(** ** Instantiating a class *)

Definition TypeError_no_arguments : Exn :=
  mkExn "TypeError" "DummyComm() takes no arguments".

(** [cls( *args, **kwargs)] for a class of this module, the new object
    being placed at [l].  A subclass of [BaseComm] runs the inherited
    [__init__]; when it raises, the half-built object is dropped.  A plain
    class has [object]'s constructor, which takes no arguments. *)
Definition instantiate (cls : Class) (l : loc) (a : Args) : M loc :=
  if decide (BaseComm ∈ cls_bases cls) then
    w ← get_world;
    let '(s, r) := BaseComm_init l a (third_party w) in
    _ ← modify (set_third_party s);
    match r with
    | Some e => raise e
    | None => _ ← modify (λ w, set_heap (<[l := cls]> (heap w)) w); mret l
    end
  else
    match positional a, keywords a with
    | [], [] => _ ← modify (λ w, set_heap (<[l := cls]> (heap w)) w); mret l
    | _, _ => raise TypeError_no_arguments
    end.

(** ** The module's functions *)

(** line 13-14:
<<
    def publish_msg(self, msg_type, data=None, metadata=None, buffers=None, **keys):
        pass
>> *)
Definition publish_msg (self : loc) (msg_type data metadata buffers : PyVal)
    (keys : list (string * PyVal)) : M PyVal :=
  mret VNone.

(** The frame of [create_dummy_comm] while it runs line 18. *)
Definition create_dummy_comm_frame (cs : CallState) : Frame :=
  mkFrame module_file 18 "create_dummy_comm" (line_18 cs).

(** line 16-20:
<<
    def create_dummy_comm( *args, **kwargs):
        comm = DummyComm( *args, **kwargs)
        stacktrace = ''.join(traceback.format_stack())
        orphan_comm_stacks[comm] = stacktrace
        return comm
>>
    (the source writes the empty separator with double quotes).  [cs] is
    the state of the interpreter at the call; [l] is the address the
    allocator gives the new instance. *)
Definition create_dummy_comm (l : loc) (cs : CallState) (a : Args)
    : M PyVal :=
  w ← get_world;
  comm ← instantiate (DummyComm w) l a;
  let stacktrace :=
    join "" (format_stack (tracebacklimit cs)
               (frames cs ++ [create_dummy_comm_frame cs])) in
  _ ← modify (λ w, set_registry (<[comm := stacktrace]> (orphan_comm_stacks w)) w);
  mret (VRef comm).

(** Calling whatever a factory slot holds. *)
Definition call (f : Callable) (l : loc) (cs : CallState) (a : Args)
    : M PyVal :=
  match f with
  | the_create_dummy_comm => create_dummy_comm l cs a
  | library_create_comm =>
      w ← get_world;
      let '(s, r) := library_factory l a (third_party w) in
      _ ← modify (set_third_party s);
      match r with
      | inl e => raise e
      | inr cls => _ ← modify (λ w, set_heap (<[l := cls]> (heap w)) w); mret (VRef l)
      end
  end.

(** ** Importing the module

    [installed] is the [comm] library when it can be imported; [s] is the
    state of third-party code at import time. *)
Definition import_module (installed : option CommLib) (s : L) : World :=
  let comm := installed in                                  (* line 4-7 *)
  let orphan_comm_stacks : gmap loc string := ∅ in          (* line 9 *)
  match comm with                                           (* line 10 *)
  | Some lib =>
      mkWorld (Some (mkCommLib the_create_dummy_comm))      (* line 22 *)
              orphan_comm_stacks DummyComm_noop (Some the_create_dummy_comm)
              ∅ s
  | None =>
      mkWorld None orphan_comm_stacks DummyComm_placeholder None ∅ s
  end.

(** ** One step of the process *)

Definition AttributeError (attr : string) : Exn :=
  mkExn "AttributeError" ("no attribute " +:+ attr).

Definition ModuleNotFoundError : Exn :=
  mkExn "ModuleNotFoundError" "No module named comm".

(** The outcome and the next world of an event, or [None] when the event
    cannot happen in [w]: the allocator never hands out the address of a
    live object, a method is called on a live object only, and the collector
    frees only what nothing refers to; the registry is an ordinary
    dictionary, so its keys are referred to. *)
Definition step (w : World) (ev : Event) : option ((Exn + PyVal) * World) :=
  match ev with
  | Call_create_dummy_comm l cs a =>
      match heap w !! l with
      | Some _ => None
      | None =>
          match create_dummy_comm_global w with
          | Some f => Some (call f l cs a w)
          | None => Some (inl (AttributeError "create_dummy_comm"), w)
          end
      end
  | Call_comm_create_comm l cs a =>
      match heap w !! l with
      | Some _ => None
      | None =>
          match comm w with
          | Some lib => Some (call (create_comm lib) l cs a w)
          | None => Some (inl ModuleNotFoundError, w)
          end
      end
  | Call_DummyComm l a =>
      match heap w !! l with
      | Some _ => None
      | None => Some ((c ← instantiate (DummyComm w) l a; mret (VRef c)) w)
      end
  | Call_publish_msg self msg_type data metadata buffers keys =>
      match heap w !! self with
      | None => None
      | Some cls =>
          match resolve cls "publish_msg" with
          | Own def_publish_msg =>
              Some (publish_msg self msg_type data metadata buffers keys w)
          | Inherited _ => None
          | Missing => Some (inl (AttributeError "publish_msg"), w)
          end
      end
  | Collect l =>
      match heap w !! l, orphan_comm_stacks w !! l with
      | Some _, None => Some (inr VNone, set_heap (delete l (heap w)) w)
      | _, _ => None
      end
  end.

(** Whether an event, in [w], runs the tracking factory. *)
Definition routed_to_factory (w : World) (ev : Event) : option CallState :=
  match ev with
  | Call_create_dummy_comm _ cs _ =>
      if decide (create_dummy_comm_global w = Some the_create_dummy_comm)
      then Some cs else None
  | Call_comm_create_comm _ cs _ =>
      if decide (create_comm <$> comm w = Some the_create_dummy_comm)
      then Some cs else None
  | _ => None
  end.

(** The instance a successful call to the tracking factory returned. *)
Definition returned_by_factory (w : World) (ev : Event) (out : Exn + PyVal)
    : list Created :=
  match routed_to_factory w ev, out with
  | Some cs, inr (VRef c) => [(c, cs)]
  | _, _ => []
  end.

(** [run w log w']: the process goes from [w] to [w'], the tracking
    factory returning the instances of [log] on the way, latest first. *)
Inductive run : World → list Created → World → Prop :=
  | run_refl w : run w [] w
  | run_step w1 log w2 ev out w3 :
      run w1 log w2 →
      step w2 ev = Some (out, w3) →
      run w1 (returned_by_factory w2 ev out ++ log) w3.

(** The states reachable after the import. *)
Definition reachable (installed : option CommLib) (s : L)
    (log : list Created) (w : World) : Prop :=
  run (import_module installed s) log w.

(** ** A sequence of creations *)

(** Calling the factory once per element, stopping at the first exception. *)
Fixpoint create_all (calls : list (loc * CallState * Args)) : M (list PyVal) :=
  match calls with
  | [] => mret []
  | (l, cs, a) :: rest =>
      c ← create_dummy_comm l cs a;
      rest_vs ← create_all rest;
      mret (c :: rest_vs)
  end.

(** The registry value of an instance created in the call state [cs]. *)
Definition stacktrace_of (cs : CallState) : string :=
  join "" (format_stack (tracebacklimit cs)
             (frames cs ++ [create_dummy_comm_frame cs])).

(** [needle] occurs in [s]. *)
Definition occurs_in (needle s : string) : Prop :=
  ∃ before after, s = before +:+ needle +:+ after.

(** ** The invariant of the reachable states *)

(** What the import leaves in the module's globals: the [if] branch when
    the library is present, the [else] branch when it is not. *)
Definition globals_ok (present : bool) (w : World) : Prop :=
  comm w = (if present then Some (mkCommLib the_create_dummy_comm) else None) ∧
  DummyComm w = (if present then DummyComm_noop else DummyComm_placeholder) ∧
  create_dummy_comm_global w =
    (if present then Some the_create_dummy_comm else None).

Definition entry (c : Created) : loc * string := (c.1, stacktrace_of c.2).

(** The registry is exactly the log of the factory's returns; its keys are
    live, pairwise distinct, and every live instance has the class the
    global [DummyComm] names. *)
Record Inv (present : bool) (log : list Created) (w : World) : Prop := mkInv {
  inv_globals : globals_ok present w;
  inv_live : ∀ l, is_Some (orphan_comm_stacks w !! l) → is_Some (heap w !! l);
  inv_class : ∀ l c, heap w !! l = Some c → c = DummyComm w;
  inv_nodup : NoDup log.*1;
  inv_registry : orphan_comm_stacks w = list_to_map (entry <$> log);
  inv_fallback : present = false → log = []
}.

Definition is_installed (installed : option CommLib) : bool :=
  match installed with Some _ => true | None => false end.

(** * Properties *)

(** ** The two constructors, unfolded *)

Ltac monad_unfold :=
  unfold mbind, M_bind, mret, M_ret, get_world, modify, raise; cbn.

Lemma instantiate_noop l a (w : World) :
  instantiate DummyComm_noop l a w =
    match BaseComm_init l a (third_party w) with
    | (s, Some e) => (inl e, set_third_party s w)
    | (s, None) =>
        (inr l, set_heap (<[l := DummyComm_noop]> (heap w)) (set_third_party s w))
    end.
Proof.
  unfold instantiate.
  destruct (decide (BaseComm ∈ cls_bases DummyComm_noop)) as [_|n].
  - monad_unfold.
    destruct (BaseComm_init l a (third_party w)) as [s [e|]]; reflexivity.
  - exfalso. apply n. cbn. constructor.
Qed.

Lemma instantiate_placeholder l a (w : World) :
  instantiate DummyComm_placeholder l a w =
    match positional a, keywords a with
    | [], [] => (inr l, set_heap (<[l := DummyComm_placeholder]> (heap w)) w)
    | _, _ => (inl TypeError_no_arguments, w)
    end.
Proof.
  unfold instantiate.
  destruct (decide (BaseComm ∈ cls_bases DummyComm_placeholder)) as [i|_].
  - exfalso. cbn in i. apply list_elem_of_singleton in i. discriminate.
  - destruct (positional a), (keywords a); reflexivity.
Qed.

Lemma create_dummy_comm_unfold l cs a (w : World) :
  DummyComm w = DummyComm_noop →
  create_dummy_comm l cs a w =
    match BaseComm_init l a (third_party w) with
    | (s, Some e) => (inl e, set_third_party s w)
    | (s, None) =>
        (inr (VRef l),
         set_registry (<[l := stacktrace_of cs]> (orphan_comm_stacks w))
           (set_heap (<[l := DummyComm_noop]> (heap w)) (set_third_party s w)))
    end.
Proof.
  intros HD. unfold create_dummy_comm, stacktrace_of.
  monad_unfold. rewrite HD, instantiate_noop.
  destruct (BaseComm_init l a (third_party w)) as [s [e|]]; reflexivity.
Qed.

(** ** The invariant holds after the import and is kept by every step *)

Lemma import_module_inv installed s :
  Inv (is_installed installed) [] (import_module installed s).
Proof.
  destruct installed as [lib|]; cbn;
    (split; cbn;
      [ done
      | intros l [v Hv]; by rewrite lookup_empty in Hv
      | intros l c Hc; by rewrite lookup_empty in Hc
      | constructor
      | done
      | done ]).
Qed.

Lemma registry_keys_log present log w l :
  Inv present log w → is_Some (orphan_comm_stacks w !! l) ↔ l ∈ log.*1.
Proof.
  intros HI. rewrite (inv_registry _ _ _ HI).
  rewrite <- (elem_of_dom (M := gmap positive)), dom_list_to_map_L.
  rewrite elem_of_list_to_set.
  replace ((entry <$> log).*1) with (log.*1); [done|].
  rewrite <- list_fmap_compose. done.
Qed.

Lemma create_dummy_comm_inv log w l cs a out w' :
  Inv true log w →
  heap w !! l = None →
  create_dummy_comm l cs a w = (out, w') →
  Inv true (match out with inr (VRef c) => [(c, cs)] | _ => [] end ++ log) w'.
Proof.
  intros HI Hl.
  destruct (inv_globals _ _ _ HI) as (Hc & HD & Hg). cbn in Hc, HD, Hg.
  rewrite create_dummy_comm_unfold by done.
  destruct (BaseComm_init l a (third_party w)) as [s [e|]];
    intros [= <- <-]; cbn.
  - destruct HI. split; cbn; done.
  - assert (Hfresh : l ∉ log.*1).
    { intros Hin. apply (registry_keys_log _ _ _ _ HI) in Hin.
      apply (inv_live _ _ _ HI) in Hin. rewrite Hl in Hin.
      by destruct Hin. }
    destruct HI as [_ Hlive Hcls Hnd Hreg _]. split; cbn.
    + done.
    + intros k [v Hv]. destruct (decide (l = k)) as [->|Hne].
      * rewrite lookup_insert_eq. eauto.
      * rewrite lookup_insert_ne in Hv by done.
        rewrite lookup_insert_ne by done. eauto.
    + intros k c Hk. rewrite HD. destruct (decide (l = k)) as [->|Hne].
      * rewrite lookup_insert_eq in Hk. congruence.
      * rewrite lookup_insert_ne in Hk by done.
        rewrite <- HD. eauto.
    + constructor; done.
    + rewrite Hreg. reflexivity.
    + done.
Qed.

Lemma inv_same_registry present log w w' :
  Inv present log w →
  comm w' = comm w → DummyComm w' = DummyComm w →
  create_dummy_comm_global w' = create_dummy_comm_global w →
  orphan_comm_stacks w' = orphan_comm_stacks w →
  (∀ l, is_Some (orphan_comm_stacks w !! l) → is_Some (heap w' !! l)) →
  (∀ l c, heap w' !! l = Some c → c = DummyComm w) →
  Inv present log w'.
Proof.
  intros [(Hc & HD & Hg) Hlive Hcls Hnd Hreg Hfb] Ec ED Eg Er Hlive' Hcls'.
  split.
  - unfold globals_ok. by rewrite Ec, ED, Eg.
  - rewrite Er. done.
  - rewrite ED. done.
  - done.
  - by rewrite Er.
  - done.
Qed.

Lemma instantiate_inv present log w l a out w' :
  Inv present log w →
  heap w !! l = None →
  instantiate (DummyComm w) l a w = (out, w') →
  Inv present log w'.
Proof.
  intros HI Hl.
  destruct (inv_globals _ _ _ HI) as (Hc & HD & Hg).
  rewrite HD. destruct present.
  - rewrite instantiate_noop.
    destruct (BaseComm_init l a (third_party w)) as [s [e|]];
      intros [= <- <-]; apply (inv_same_registry _ _ _ _ HI); cbn; try done.
    + apply (inv_live _ _ _ HI).
    + apply (inv_class _ _ _ HI).
    + intros k Hk. apply (inv_live _ _ _ HI) in Hk.
      destruct (decide (l = k)) as [->|Hne];
        [rewrite lookup_insert_eq | rewrite lookup_insert_ne by done]; eauto.
    + intros k c. destruct (decide (l = k)) as [->|Hne].
      * rewrite lookup_insert_eq, HD. congruence.
      * rewrite lookup_insert_ne by done. apply (inv_class _ _ _ HI).
  - rewrite instantiate_placeholder.
    destruct (positional a), (keywords a);
      intros [= <- <-]; apply (inv_same_registry _ _ _ _ HI); cbn; try done;
      try apply (inv_live _ _ _ HI); try apply (inv_class _ _ _ HI).
    + intros k Hk. apply (inv_live _ _ _ HI) in Hk.
      destruct (decide (l = k)) as [->|Hne];
        [rewrite lookup_insert_eq | rewrite lookup_insert_ne by done]; eauto.
    + intros k c. destruct (decide (l = k)) as [->|Hne].
      * rewrite lookup_insert_eq, HD. congruence.
      * rewrite lookup_insert_ne by done. apply (inv_class _ _ _ HI).
Qed.

Lemma step_inv present log w ev out w' :
  Inv present log w →
  step w ev = Some (out, w') →
  Inv present (returned_by_factory w ev out ++ log) w'.
Proof.
  intros HI.
  destruct (inv_globals _ _ _ HI) as (Hc & HD & Hg).
  unfold returned_by_factory.
  destruct ev as [l cs a|l cs a|l a|self mt d md bf ks|l]; cbn.
  - destruct (heap w !! l) eqn:Hl; [done|]. rewrite Hg.
    destruct present; cbn.
    + intros [= Hrun]. destruct (decide _) as [_|]; [|done].
      apply (create_dummy_comm_inv _ _ _ cs _ _ _ HI Hl) in Hrun.
      destruct out as [e|[]]; exact Hrun.
    + intros [= <- <-]. destruct (decide _); done.
  - destruct (heap w !! l) eqn:Hl; [done|]. rewrite Hc.
    destruct present; cbn.
    + intros [= Hrun]. destruct (decide _) as [_|]; [|done].
      apply (create_dummy_comm_inv _ _ _ cs _ _ _ HI Hl) in Hrun.
      destruct out as [e|[]]; exact Hrun.
    + intros [= <- <-]. destruct (decide _); done.
  - destruct (heap w !! l) eqn:Hl; [done|].
    unfold mbind at 1, M_bind.
    destruct (instantiate (DummyComm w) l a w) as [[e|c] w1] eqn:Hi;
      intros [= <- <-]; eapply instantiate_inv; eauto.
  - destruct (heap w !! self) as [cls|] eqn:Hs; [|done].
    destruct (resolve cls "publish_msg") as [[]| |]; [|done|];
      intros [= <- <-]; done.
  - destruct (heap w !! l) as [cls|] eqn:Hl; [|done].
    destruct (orphan_comm_stacks w !! l) eqn:Hr; [done|].
    intros [= <- <-]. apply (inv_same_registry _ _ _ _ HI); cbn; try done.
    + intros k Hk. destruct (decide (l = k)) as [->|Hne].
      * rewrite Hr in Hk. by destruct Hk.
      * rewrite lookup_delete_ne by done. by apply (inv_live _ _ _ HI).
    + intros k c Hk. apply lookup_delete_Some in Hk as [_ Hk].
      by apply (inv_class _ _ _ HI) in Hk.
Qed.

Lemma run_inv present log0 w log w' :
  Inv present log0 w → run w log w' → Inv present (log ++ log0) w'.
Proof.
  intros HI Hrun. induction Hrun as [|w1 log w2 ev out w3 Hrun IH Hstep].
  - done.
  - rewrite <- app_assoc. eapply step_inv; eauto.
Qed.

Lemma reachable_inv installed s log w :
  reachable installed s log w → Inv (is_installed installed) log w.
Proof.
  intros Hrun. rewrite <- (app_nil_r log).
  eapply run_inv; [apply import_module_inv | exact Hrun].
Qed.

(** ** The factory *)


(** C5: when the constructor of [BaseComm] raises, [create_dummy_comm]
    raises the same exception, and neither the registry nor the set of live
    instances has changed. *)
Theorem create_dummy_comm_propagates l cs a (w : World) s e :
  DummyComm w = DummyComm_noop →
  BaseComm_init l a (third_party w) = (s, Some e) →
  ∃ w',
    create_dummy_comm l cs a w = (inl e, w') ∧
    orphan_comm_stacks w' = orphan_comm_stacks w ∧
    heap w' = heap w.
Proof.
  intros HD Hinit. rewrite create_dummy_comm_unfold by done. rewrite Hinit.
  eexists. split; [reflexivity|]. cbn. done.
Qed.

(** ** Publishing *)

(** C3: on an instance the tracking factory returned, [publish_msg] with
    any message type, data, metadata, buffers and extra keywords returns
    [None] without raising and leaves the world, registry included, as it
    was. *)
Theorem publish_msg_silent installed s log w c cs mt d md bf ks :
  reachable installed s log w →
  (c, cs) ∈ log →
  step w (Call_publish_msg c mt d md bf ks) = Some (inr VNone, w) ∧
  publish_msg c mt d md bf ks w = (inr VNone, w).
Proof.
  intros Hreach Hin. split; [|reflexivity].
  apply reachable_inv in Hreach as HI.
  assert (Hp : is_installed installed = true).
  { destruct (is_installed installed); [done|].
    rewrite (inv_fallback _ _ _ HI eq_refl) in Hin. by apply elem_of_nil in Hin. }
  rewrite Hp in HI.
  destruct (inv_globals _ _ _ HI) as (_ & HD & _). cbn in HD.
  assert (Hk : c ∈ log.*1).
  { apply list_elem_of_fmap. by exists (c, cs). }
  apply (registry_keys_log _ _ _ _ HI), (inv_live _ _ _ HI) in Hk as [cls Hcls].
  pose proof (inv_class _ _ _ HI _ _ Hcls) as ->.
  cbn. rewrite Hcls, HD. reflexivity.
Qed.

(** ** The registry along a run *)

Lemma step_keeps_registry present log w ev out w' :
  Inv present log w →
  step w ev = Some (out, w') →
  returned_by_factory w ev out = [] →
  orphan_comm_stacks w' = orphan_comm_stacks w.
Proof.
  intros HI Hstep Hnil.
  pose proof (step_inv _ _ _ _ _ _ HI Hstep) as HI'.
  rewrite Hnil in HI'. cbn in HI'.
  by rewrite (inv_registry _ _ _ HI), (inv_registry _ _ _ HI').
Qed.

(** C2: in every reachable state the keys of [orphan_comm_stacks] are
    exactly the instances that successful calls to the tracking factory
    returned; a step that is not such a call leaves the registry as it was,
    and an instance built by calling [DummyComm] directly is not a key. *)
Theorem registry_keys_are_factory_returns installed s log w :
  reachable installed s log w →
  (∀ c, c ∈ dom (orphan_comm_stacks w) ↔ c ∈ log.*1) ∧
  (∀ ev out w',
     step w ev = Some (out, w') →
     returned_by_factory w ev out = [] →
     orphan_comm_stacks w' = orphan_comm_stacks w) ∧
  (∀ l a out w',
     step w (Call_DummyComm l a) = Some (out, w') →
     l ∉ dom (orphan_comm_stacks w')).
Proof.
  intros Hreach. apply reachable_inv in Hreach as HI.
  split; [|split].
  - intros c. rewrite elem_of_dom. apply (registry_keys_log _ _ _ _ HI).
  - intros ev out w'. apply (step_keeps_registry _ _ _ _ _ _ HI).
  - intros l a out w' Hstep.
    rewrite (step_keeps_registry _ _ _ _ _ _ HI Hstep eq_refl).
    cbn in Hstep. destruct (heap w !! l) eqn:Hl; [done|].
    rewrite elem_of_dom. intros Hk.
    apply (inv_live _ _ _ HI) in Hk. rewrite Hl in Hk. by destruct Hk.
Qed.

(** C9: an entry of the registry of a reachable state is still there, with
    the same value, after any further steps: creations, publishes, direct
    constructions and collections. *)
Theorem registry_entries_persist installed s log w log' w' c v :
  reachable installed s log w →
  run w log' w' →
  orphan_comm_stacks w !! c = Some v →
  orphan_comm_stacks w' !! c = Some v.
Proof.
  intros Hreach Hrun. apply reachable_inv in Hreach as HI.
  pose proof (run_inv _ _ _ _ _ HI Hrun) as HI'.
  rewrite (inv_registry _ _ _ HI), (inv_registry _ _ _ HI').
  intros Hv. apply elem_of_list_to_map_2 in Hv.
  apply elem_of_list_to_map_1.
  - replace ((entry <$> (log' ++ log)%list).*1) with ((log' ++ log)%list.*1).
    + apply (inv_nodup _ _ _ HI').
    + by rewrite <- list_fmap_compose.
  - rewrite fmap_app. apply elem_of_app. by right.
Qed.

(** ** The import *)

(** C8: with the library present, the import leaves [comm.create_comm]
    bound to the tracking factory; it stays so in every reachable state, so
    a creation through [comm.create_comm] is a call of [create_dummy_comm]. *)
Theorem import_patches_create_comm lib s :
  comm (import_module (Some lib) s) = Some (mkCommLib the_create_dummy_comm) ∧
  (∀ log w,
     reachable (Some lib) s log w →
     create_comm <$> comm w = Some the_create_dummy_comm ∧
     ∀ l cs a,
       heap w !! l = None →
       step w (Call_comm_create_comm l cs a) =
         Some (create_dummy_comm l cs a w) ∧
       routed_to_factory w (Call_comm_create_comm l cs a) = Some cs).
Proof.
  split; [reflexivity|].
  intros log w Hreach. apply reachable_inv in Hreach as HI.
  destruct (inv_globals _ _ _ HI) as (Hc & _ & _). cbn in Hc.
  split; [by rewrite Hc|].
  intros l cs a Hl. cbn. rewrite Hl, Hc. cbn. done.
Qed.

(** C6: without the library, [DummyComm] is the class with an empty body:
    it has no [publish_msg], nothing is patched ([comm] is [None] and no
    factory is defined), the registry is empty, and [DummyComm()] yields an
    instance, on which a call of [publish_msg] raises [AttributeError]. *)
Theorem fallback_is_placeholder s log w :
  reachable None s log w →
  DummyComm w = DummyComm_placeholder ∧
  cls_dict (DummyComm w) = ∅ ∧
  resolve (DummyComm w) "publish_msg" = Missing ∧
  comm w = None ∧
  create_dummy_comm_global w = None ∧
  orphan_comm_stacks w = ∅ ∧
  (∀ l, heap w !! l = None →
     ∃ w',
       step w (Call_DummyComm l no_args) = Some (inr (VRef l), w') ∧
       heap w' !! l = Some DummyComm_placeholder ∧
       orphan_comm_stacks w' = ∅ ∧
       ∀ mt d md bf ks,
         step w' (Call_publish_msg l mt d md bf ks) =
           Some (inl (AttributeError "publish_msg"), w')).
Proof.
  intros Hreach. apply reachable_inv in Hreach as HI. cbn in HI.
  destruct (inv_globals _ _ _ HI) as (Hc & HD & Hg). cbn in Hc, HD, Hg.
  assert (Hreg : orphan_comm_stacks w = ∅).
  { rewrite (inv_registry _ _ _ HI), (inv_fallback _ _ _ HI eq_refl). done. }
  rewrite HD. repeat (split; [done|]).
  intros l Hl. cbn. rewrite Hl, HD.
  unfold mbind, M_bind. rewrite instantiate_placeholder. cbn.
  eexists. split; [reflexivity|]. cbn.
  rewrite lookup_insert_eq. split; [done|]. split; [done|].
  intros mt d md bf ks. reflexivity.
Qed.

(** C10: the import binds [orphan_comm_stacks] to the empty dictionary
    whether or not the library is installed (line 9 precedes the test of
    line 10); without the library no reachable state has an entry and the
    tracking factory has returned nothing. *)
Theorem registry_defined_unconditionally installed s :
  orphan_comm_stacks (import_module installed s) = ∅ ∧
  (∀ log w,
     reachable None s log w →
     orphan_comm_stacks w = ∅ ∧ log = [] ∧
     ∀ ev out w', step w ev = Some (out, w') → orphan_comm_stacks w' = ∅).
Proof.
  split; [by destruct installed|].
  intros log w Hreach. apply reachable_inv in Hreach as HI. cbn in HI.
  pose proof (inv_fallback _ _ _ HI eq_refl) as ->.
  split; [by rewrite (inv_registry _ _ _ HI)|]. split; [done|].
  intros ev out w' Hstep.
  pose proof (step_inv _ _ _ _ _ _ HI Hstep) as HI'.
  rewrite (inv_registry _ _ _ HI'), (inv_fallback _ _ _ HI' eq_refl). done.
Qed.

(** ** A sequence of creations *)

Lemma create_all_registry calls (w : World) vs w' :
  DummyComm w = DummyComm_noop →
  create_all calls w = (inr vs, w') →
  dom (orphan_comm_stacks w') =
    list_to_set calls.*1.*1 ∪ dom (orphan_comm_stacks w) ∧
  vs = VRef <$> calls.*1.*1.
Proof.
  revert w vs. induction calls as [|[[l cs] a] rest IH]; intros w vs HD.
  - intros [= <- <-]. cbn. split; [by rewrite (left_id_L ∅ (∪))|done].
  - cbn. unfold mbind at 1, M_bind.
    rewrite create_dummy_comm_unfold by done.
    destruct (BaseComm_init l a (third_party w)) as [s [e|]]; [done|].
    unfold mbind at 1, M_bind.
    destruct (create_all rest _) as [[e|vs'] w2] eqn:Hrest; [done|].
    intros [= <- <-].
    apply IH in Hrest as [Hdom ->]; [|done].
    rewrite Hdom. cbn. rewrite dom_insert_L. split; [|done].
    by rewrite (assoc_L (∪)), (comm_L (∪) (list_to_set _) {[l]}).
Qed.

(** C4: starting from an empty registry, [N] successful calls of the
    tracking factory that return pairwise distinct instances leave exactly
    [N] entries in the registry, one per returned instance. *)
Theorem create_all_size calls (w : World) vs w' :
  DummyComm w = DummyComm_noop →
  orphan_comm_stacks w = ∅ →
  create_all calls w = (inr vs, w') →
  NoDup calls.*1.*1 →
  size (orphan_comm_stacks w') = length calls ∧
  length vs = length calls ∧
  dom (orphan_comm_stacks w') = list_to_set calls.*1.*1.
Proof.
  intros HD Hempty Hrun Hnd.
  apply create_all_registry in Hrun as [Hdom ->]; [|done].
  rewrite Hempty, dom_empty_L, (right_id_L ∅ (∪)) in Hdom.
  split; [|split].
  - rewrite <- size_dom, Hdom, size_list_to_set by done.
    by rewrite !length_fmap.
  - by rewrite !length_fmap.
  - done.
Qed.

(** ** The registry's values *)

Lemma string_app_nil_r (s : string) : s +:+ "" = s.
Proof. induction s as [|a s IH]; cbn; [done|]. unfold String.app. cbn. by f_equal. Qed.

Lemma string_app_assoc (s1 s2 s3 : string) :
  (s1 +:+ s2) +:+ s3 = s1 +:+ (s2 +:+ s3).
Proof.
  induction s1 as [|a s1 IH]; [done|].
  change (String a ((s1 +:+ s2) +:+ s3) = String a (s1 +:+ (s2 +:+ s3))).
  by f_equal.
Qed.

Lemma join_cons (x : string) (xs : list string) :
  join "" (x :: xs) = x +:+ join "" xs.
Proof.
  destruct xs as [|y ys]; [by rewrite string_app_nil_r|reflexivity].
Qed.

Lemma occurs_in_join (x : string) (parts : list string) :
  x ∈ parts → occurs_in x (join "" parts).
Proof.
  induction parts as [|y ys IH]; intros Hin.
  - by apply elem_of_nil in Hin.
  - rewrite join_cons. apply elem_of_cons in Hin as [->|Hin].
    + by exists "", (join "" ys).
    + destruct (IH Hin) as (before & after & ->).
      exists (y +:+ before), after. by rewrite string_app_assoc.
Qed.

Lemma format_frame_nonempty (f : Frame) : format_frame f ≠ "".
Proof. unfold format_frame. discriminate. Qed.

Lemma occurs_in_nonempty (x s : string) : occurs_in x s → x ≠ "" → s ≠ "".
Proof.
  intros (before & after & ->) Hx Hs. apply Hx.
  destruct before as [|a before]; [|discriminate Hs].
  destruct x as [|a x]; [done|discriminate Hs].
Qed.


(** *** What [format_stack] renders *)

Lemma format_summary_all last (count : nat) (fs : list Frame) :
  (count ≤ RECURSIVE_CUTOFF)%nat →
  has_long_run last count fs = false →
  format_summary last count fs = format_frame <$> fs.
Proof.
  unfold RECURSIVE_CUTOFF.
  revert last count. induction fs as [|f rest IH]; intros last count Hc Hrun.
  - cbn. destruct (decide (RECURSIVE_CUTOFF < count)) as [Hlt|_]; [|done].
    unfold RECURSIVE_CUTOFF in Hlt. lia.
  - cbn in Hrun |- *. destruct (decide (last = Some (place f))) as [_|_].
    + apply orb_false_iff in Hrun as [Hlt Hrun].
      apply bool_decide_eq_false in Hlt.
      destruct (decide (RECURSIVE_CUTOFF < S count)) as [|_]; [done|].
      f_equal. apply IH; [unfold RECURSIVE_CUTOFF in Hlt; lia | done].
    + destruct (decide (RECURSIVE_CUTOFF < count)) as [Hlt|_].
      { unfold RECURSIVE_CUTOFF in Hlt. lia. }
      cbn. f_equal. apply IH; [lia | done].
Qed.

Lemma format_list_cons (f : Frame) (rest : list Frame) :
  format_list (f :: rest) =
    format_frame f :: format_summary (Some (place f)) 1 rest.
Proof.
  unfold format_list. cbn.
  destruct (decide (None = Some (place f))) as [|_]; [done|].
  destruct (decide (RECURSIVE_CUTOFF < 0)) as [Hlt|_]; [|done].
  unfold RECURSIVE_CUTOFF in Hlt. lia.
Qed.

Lemma format_list_nonempty (fs : list Frame) :
  fs ≠ [] → join "" (format_list fs) ≠ "".
Proof.
  destruct fs as [|f rest]; [done|]. intros _.
  rewrite format_list_cons, join_cons.
  apply (occurs_in_nonempty (format_frame f)).
  - by exists "", (join "" (format_summary (Some (place f)) 1 rest)).
  - apply format_frame_nonempty.
Qed.

Lemma extract_stack_snoc lim (fs : list Frame) (f : Frame) :
  keeps_innermost lim →
  extract_stack lim (fs ++ [f]) =
    (extract_stack (caller_limit lim) fs ++ [f])%list.
Proof.
  destruct lim as [n|]; cbn; [|done]. intros Hn.
  destruct (decide (n < 0)%Z); [lia|].
  destruct (decide (n - 1 < 0)%Z); [lia|].
  rewrite length_app. cbn [length].
  replace (length fs + 1 - Z.to_nat n) with (length fs - Z.to_nat (n - 1))
    by lia.
  apply drop_app_le. lia.
Qed.




(** C7, as the code has it: the value stored for an instance in a
    reachable state is the joined output of [traceback.format_stack()] at
    line 18, for the frames active at the creation (the caller's, then the
    factory's own) and the [sys.tracebacklimit] of that moment.  When the
    limit is not set or is positive the value is not the empty string;
    when it is not set and no run of frames at one place exceeds the
    cutoff, the rendering of each of those frames occurs in the value. *)
Theorem registry_values_are_format_stack_output installed s log w c v :
  reachable installed s log w →
  orphan_comm_stacks w !! c = Some v →
  ∃ cs,
    (c, cs) ∈ log ∧
    v = join "" (format_stack (tracebacklimit cs)
                   (frames cs ++ [create_dummy_comm_frame cs])) ∧
    (keeps_innermost (tracebacklimit cs) → v ≠ "") ∧
    (tracebacklimit cs = None →
     has_long_run None 0 (frames cs ++ [create_dummy_comm_frame cs]) = false →
     ∀ f, f ∈ (frames cs ++ [create_dummy_comm_frame cs])%list →
          occurs_in (format_frame f) v).
Proof.
  intros Hreach Hv. apply reachable_inv in Hreach as HI.
  rewrite (inv_registry _ _ _ HI) in Hv.
  apply elem_of_list_to_map_2, list_elem_of_fmap in Hv
    as ([c' cs] & [= -> ->] & Hin).
  exists cs. cbn. split; [done|]. split; [done|]. split.
  - intros Hlim. unfold stacktrace_of, format_stack.
    rewrite extract_stack_snoc by done.
    apply format_list_nonempty. by destruct (extract_stack _ _).
  - intros Hnone Hrun f Hf. unfold stacktrace_of, format_stack.
    rewrite Hnone. cbn [extract_stack]. unfold format_list.
    rewrite format_summary_all by (done || (unfold RECURSIVE_CUTOFF; lia)).
    apply occurs_in_join, list_elem_of_fmap. by exists f.
Qed.

(** ** Further properties of the reachable states *)

(** X1: in every reachable state the registry has exactly one entry per
    successful return of the tracking factory, and the returned instances
    are pairwise distinct: no creation ever reuses the address of a tracked
    instance. *)
Theorem registry_size_counts_returns installed s log w :
  reachable installed s log w →
  size (orphan_comm_stacks w) = length log ∧ NoDup log.*1.
Proof.
  intros Hreach. apply reachable_inv in Hreach as HI.
  split; [|apply (inv_nodup _ _ _ HI)].
  rewrite <- size_dom, (inv_registry _ _ _ HI), dom_list_to_map_L.
  replace ((entry <$> log).*1) with (log.*1) by by rewrite <- list_fmap_compose.
  rewrite size_list_to_set by apply (inv_nodup _ _ _ HI).
  by rewrite length_fmap.
Qed.

(** X2: the registry is an ordinary dictionary, so it keeps its keys
    alive: an instance the tracking factory returned is still a live
    instance of the no-op class after any further steps, and the collector
    can never free it. *)
Theorem tracked_instances_stay_live installed s log w log' w' c cs :
  reachable installed s log w →
  (c, cs) ∈ log →
  run w log' w' →
  heap w' !! c = Some DummyComm_noop ∧
  step w' (Collect c) = None.
Proof.
  intros Hreach Hin Hrun. apply reachable_inv in Hreach as HI.
  assert (Hp : is_installed installed = true).
  { destruct (is_installed installed); [done|].
    rewrite (inv_fallback _ _ _ HI eq_refl) in Hin. by apply elem_of_nil in Hin. }
  pose proof (run_inv _ _ _ _ _ HI Hrun) as HI'. rewrite Hp in HI'.
  destruct (inv_globals _ _ _ HI') as (_ & HD & _). cbn in HD.
  assert (Hk : c ∈ (log' ++ log)%list.*1).
  { apply list_elem_of_fmap. exists (c, cs). split; [done|].
    apply elem_of_app. by right. }
  apply (registry_keys_log _ _ _ _ HI') in Hk as Hreg.
  destruct (inv_live _ _ _ HI' _ Hreg) as [cls Hcls].
  pose proof (inv_class _ _ _ HI' _ _ Hcls) as ->. rewrite HD in Hcls.
  split; [done|].
  cbn. rewrite Hcls. destruct Hreg as [v ->]. done.
Qed.

(** X3: with the library present, [publish_msg] is silent on every live
    instance of [DummyComm], whether the factory built it or the class was
    called directly: it returns [None] and the world is unchanged. *)
Theorem publish_msg_silent_on_all_instances lib s log w c mt d md bf ks :
  reachable (Some lib) s log w →
  is_Some (heap w !! c) →
  step w (Call_publish_msg c mt d md bf ks) = Some (inr VNone, w).
Proof.
  intros Hreach [cls Hcls]. apply reachable_inv in Hreach as HI. cbn in HI.
  destruct (inv_globals _ _ _ HI) as (_ & HD & _). cbn in HD.
  pose proof (inv_class _ _ _ HI _ _ Hcls) as ->.
  cbn. rewrite Hcls, HD. reflexivity.
Qed.


End Tracker.

(** * The library's original factory *)

Lemma step_ignores_library_factory {L : Type}
    (init : loc → Args → L → L * option Exn)
    (f1 f2 : loc → Args → L → L * (Exn + Class)) (file : string)
    present log (w : World) ev :
  Inv file present log w →
  step init f1 file w ev = step init f2 file w ev.
Proof.
  intros HI. destruct (inv_globals _ _ _ _ HI) as (Hc & _ & Hg).
  destruct ev as [l cs a|l cs a|l a|self mt d md bf ks|l]; cbn;
    try reflexivity.
  - destruct (heap w !! l); [done|]. rewrite Hg. by destruct present.
  - destruct (heap w !! l); [done|]. rewrite Hc. by destruct present.
Qed.

Lemma run_ignores_library_factory {L : Type}
    (init : loc → Args → L → L * option Exn)
    (f1 f2 : loc → Args → L → L * (Exn + Class)) (file : string)
    present log0 (w0 : World) log w :
  Inv file present log0 w0 →
  run init f1 file w0 log w →
  run init f2 file w0 log w.
Proof.
  intros HI Hrun. induction Hrun as [|w1 log w2 ev out w3 Hrun IH Hstep].
  - apply run_refl.
  - eapply run_step; [by apply IH|].
    rewrite <- Hstep. symmetry.
    eapply step_ignores_library_factory.
    eapply (run_inv init f1); eauto.
Qed.

(** X4: line 22 replaces [comm.create_comm]; it does not wrap it.  What the
    slot held before the import is never called afterwards: a reachable
    state, and every step from it, is the same whatever the library's own
    factory does, and the import does not depend on what the slot held. *)
Theorem library_factory_never_called {L : Type}
    (init : loc → Args → L → L * option Exn)
    (f1 f2 : loc → Args → L → L * (Exn + Class)) (file : string)
    installed s log (w : World) :
  reachable init f1 file installed s log w →
  reachable init f2 file installed s log w ∧
  (∀ ev, step init f1 file w ev = step init f2 file w ev) ∧
  (∀ lib lib', installed = Some lib →
               reachable init f1 file (Some lib') s log w).
Proof.
  intros Hreach. split; [|split].
  - eapply run_ignores_library_factory; [|exact Hreach].
    apply import_module_inv.
  - intros ev. eapply step_ignores_library_factory.
    eapply reachable_inv. exact Hreach.
  - intros lib lib' ->. exact Hreach.
Qed.

(** * The module on the sample environment *)

#[local] Abbreviation sample_w0 :=
  (import_module (L := list loc) (Some sample_lib) []).
#[local] Abbreviation sample_create l w :=
  (create_dummy_comm sample_init sample_file l sample_call no_args w).
#[local] Abbreviation sample_w1 := (sample_create 1%positive sample_w0).2.
#[local] Abbreviation sample_w2 := (sample_create 2%positive sample_w1).2.
#[local] Abbreviation sample_reachable :=
  (reachable sample_init sample_factory sample_file).
#[local] Abbreviation sample_step :=
  (step sample_init sample_factory sample_file).

Example format_stack_limit_0 :
  format_stack (Some 0%Z) [sample_caller; sample_caller] = [].
Proof. reflexivity. Qed.

Example format_stack_limit_1 :
  format_stack (Some 1%Z) [sample_caller; sample_recursive] =
    [format_frame sample_recursive].
Proof. reflexivity. Qed.

Example format_stack_recursion :
  format_stack None
    (sample_caller :: replicate 8 sample_recursive ++ [sample_caller]) =
    [ format_frame sample_caller;
      format_frame sample_recursive; format_frame sample_recursive;
      format_frame sample_recursive;
      "  [Previous line repeated 5 more times]" +:+ newline;
      format_frame sample_caller ].
Proof. reflexivity. Qed.

Example format_stack_recursion_one_more :
  format_stack None (replicate 4 sample_recursive) =
    [ format_frame sample_recursive; format_frame sample_recursive;
      format_frame sample_recursive;
      "  [Previous line repeated 1 more time]" +:+ newline ].
Proof. reflexivity. Qed.

Example format_frame_sample :
  format_frame sample_caller =
    "  File " +:+ dquote +:+ "app.py" +:+ dquote +:+ ", line 7, in <module>"
    +:+ newline +:+ "    w = widgets.Button()" +:+ newline.
Proof. reflexivity. Qed.

Example sample_w1_registry :
  orphan_comm_stacks sample_w1 =
    {[ 1%positive :=
         format_frame sample_caller +:+
         format_frame (create_dummy_comm_frame sample_file sample_call) ]}.
Proof. reflexivity. Qed.

Example sample_bad_args_raise :
  (create_dummy_comm sample_init sample_file 1 sample_call sample_bad_args
     sample_w0).1 = inl (mkExn "TypeError" "unexpected keyword argument").
Proof. reflexivity. Qed.

Lemma sample_reachable_1 :
  sample_reachable (Some sample_lib) [] [(1%positive, sample_call)] sample_w1.
Proof.
  apply (run_step sample_init sample_factory sample_file sample_w0 [] sample_w0
           (Call_create_dummy_comm 1 sample_call no_args)
           (inr (VRef 1)) sample_w1).
  - apply run_refl.
  - reflexivity.
Qed.


Lemma create_dummy_comm_propagates_witness :
  DummyComm sample_w1 = DummyComm_noop ∧
  sample_init 2 sample_bad_args (third_party sample_w1) =
    ([1%positive], Some (mkExn "TypeError" "unexpected keyword argument")) ∧
  ∃ w',
    create_dummy_comm sample_init sample_file 2 sample_call sample_bad_args
      sample_w1 = (inl (mkExn "TypeError" "unexpected keyword argument"), w') ∧
    orphan_comm_stacks w' = orphan_comm_stacks sample_w1 ∧
    heap w' = heap sample_w1.
Proof.
  split; [reflexivity|]. split; [reflexivity|].
  apply (create_dummy_comm_propagates sample_init sample_file 2 sample_call
           sample_bad_args sample_w1 [1%positive]); reflexivity.
Defined.

Lemma publish_msg_silent_witness :
  sample_reachable (Some sample_lib) [] [(1%positive, sample_call)] sample_w1 ∧
  (1%positive, sample_call) ∈ [(1%positive, sample_call)] ∧
  sample_step sample_w1
    (Call_publish_msg 1 (VStr "comm_msg") (VDict []) VNone (VList []) []) =
    Some (inr VNone, sample_w1) ∧
  publish_msg (L := list loc) 1 (VStr "comm_msg") (VDict []) VNone (VList []) []
    sample_w1 = (inr VNone, sample_w1).
Proof.
  split; [apply sample_reachable_1|]. split; [constructor|].
  apply (publish_msg_silent sample_init sample_factory sample_file
           (Some sample_lib) [] [(1%positive, sample_call)] sample_w1 1
           sample_call).
  - apply sample_reachable_1.
  - constructor.
Defined.

Lemma registry_keys_are_factory_returns_witness :
  sample_reachable (Some sample_lib) [] [(1%positive, sample_call)] sample_w1 ∧
  (∀ c, c ∈ dom (orphan_comm_stacks sample_w1) ↔ c ∈ [1%positive]) ∧
  (∀ l a out w',
     sample_step sample_w1 (Call_DummyComm l a) = Some (out, w') →
     l ∉ dom (orphan_comm_stacks w')).
Proof.
  split; [apply sample_reachable_1|].
  destruct (registry_keys_are_factory_returns sample_init sample_factory
              sample_file (Some sample_lib) [] _ _ sample_reachable_1)
    as (Hkeys & _ & Hdirect).
  split; [exact Hkeys | exact Hdirect].
Defined.

Lemma create_all_size_witness :
  DummyComm sample_w0 = DummyComm_noop ∧
  orphan_comm_stacks sample_w0 = ∅ ∧
  create_all sample_init sample_file
    [(1%positive, sample_call, no_args);
     (2%positive, sample_call, no_args)] sample_w0 =
    (inr [VRef 1; VRef 2], sample_w2) ∧
  NoDup [1%positive; 2%positive] ∧
  size (orphan_comm_stacks sample_w2) = 2.
Proof.
  split; [reflexivity|]. split; [reflexivity|]. split; [reflexivity|].
  assert (Hnd : NoDup [1%positive; 2%positive]).
  { apply (bool_decide_unpack (NoDup [1%positive; 2%positive])).
    vm_compute. exact I. }
  split; [exact Hnd|].
  apply (create_all_size sample_init sample_file
           [(1%positive, sample_call, no_args);
            (2%positive, sample_call, no_args)]
           sample_w0 [VRef 1; VRef 2] sample_w2); try reflexivity.
  exact Hnd.
Defined.

#[local] Abbreviation sample_f0 := (import_module (L := list loc) None []).

Lemma fallback_is_placeholder_witness :
  sample_reachable None [] [] sample_f0 ∧
  DummyComm sample_f0 = DummyComm_placeholder ∧
  resolve (DummyComm sample_f0) "publish_msg" = Missing ∧
  comm sample_f0 = None ∧
  orphan_comm_stacks sample_f0 = ∅ ∧
  ∃ w',
    sample_step sample_f0 (Call_DummyComm 1 no_args) = Some (inr (VRef 1), w') ∧
    sample_step w' (Call_publish_msg 1 (VStr "comm_msg") VNone VNone VNone []) =
      Some (inl (AttributeError "publish_msg"), w').
Proof.
  assert (Hreach : sample_reachable None [] [] sample_f0) by apply run_refl.
  split; [exact Hreach|].
  destruct (fallback_is_placeholder sample_init sample_factory sample_file
              [] [] sample_f0 Hreach)
    as (HD & _ & Hres & Hcomm & _ & Hreg & Hnew).
  repeat (split; [assumption|]).
  destruct (Hnew 1%positive eq_refl) as (w' & Hstep & _ & _ & Hpub).
  exists w'. split; [exact Hstep | apply Hpub].
Defined.

Lemma registry_values_are_format_stack_output_witness :
  sample_reachable (Some sample_lib) [] [(1%positive, sample_call)] sample_w1 ∧
  orphan_comm_stacks sample_w1 !! 1%positive =
    Some (stacktrace_of sample_file sample_call) ∧
  ∃ cs,
    (1%positive, cs) ∈ [(1%positive, sample_call)] ∧
    stacktrace_of sample_file sample_call =
      join "" (format_stack (tracebacklimit cs)
                 (frames cs ++ [create_dummy_comm_frame sample_file cs])) ∧
    (keeps_innermost (tracebacklimit cs) →
     stacktrace_of sample_file sample_call ≠ "") ∧
    (tracebacklimit cs = None →
     has_long_run None 0
       (frames cs ++ [create_dummy_comm_frame sample_file cs]) = false →
     ∀ f, f ∈ (frames cs ++ [create_dummy_comm_frame sample_file cs])%list →
          occurs_in (format_frame f) (stacktrace_of sample_file sample_call)).
Proof.
  split; [apply sample_reachable_1|]. split; [reflexivity|].
  apply (registry_values_are_format_stack_output sample_init sample_factory
           sample_file (Some sample_lib) [] _ sample_w1 1).
  - apply sample_reachable_1.
  - reflexivity.
Defined.

Example sample_limit_0_registry :
  orphan_comm_stacks
    (create_dummy_comm sample_init sample_file 1 sample_call_limit_0 no_args
       sample_w0).2 = {[ 1%positive := "" ]}.
Proof. reflexivity. Qed.

(** C7 as first stated does not hold: with [sys.tracebacklimit = 0]
    [format_stack] returns no entry, and the value stored for the new
    instance is the empty string. *)
Lemma registry_value_can_be_empty :
  ¬ (∀ log w c v,
       sample_reachable (Some sample_lib) [] log w →
       orphan_comm_stacks w !! c = Some v →
       v ≠ "").
Proof.
  intros Hall.
  apply (Hall [(1%positive, sample_call_limit_0)]
              (create_dummy_comm sample_init sample_file 1 sample_call_limit_0
                 no_args sample_w0).2
              1%positive "").
  - apply (run_step sample_init sample_factory sample_file sample_w0 []
             sample_w0
             (Call_create_dummy_comm 1 sample_call_limit_0 no_args)
             (inr (VRef 1))).
    + apply run_refl.
    + reflexivity.
  - reflexivity.
  - reflexivity.
Qed.

Lemma import_patches_create_comm_witness :
  sample_reachable (Some sample_lib) [] [(1%positive, sample_call)] sample_w1 ∧
  heap sample_w1 !! 2%positive = None ∧
  create_comm <$> comm sample_w1 = Some the_create_dummy_comm ∧
  sample_step sample_w1 (Call_comm_create_comm 2 sample_call no_args) =
    Some (sample_create 2%positive sample_w1).
Proof.
  split; [apply sample_reachable_1|]. split; [reflexivity|].
  destruct (import_patches_create_comm sample_init sample_factory sample_file
              sample_lib []) as [_ Hall].
  destruct (Hall _ _ sample_reachable_1) as [Hslot Hcall].
  split; [exact Hslot|].
  exact (proj1 (Hcall 2%positive sample_call no_args eq_refl)).
Defined.

Lemma sample_run_1_2 :
  run sample_init sample_factory sample_file sample_w1
    [(2%positive, sample_call)] sample_w2.
Proof.
  apply (run_step sample_init sample_factory sample_file sample_w1 []
           sample_w1
           (Call_comm_create_comm 2 sample_call no_args)
           (inr (VRef 2)) sample_w2).
  - apply run_step with
      (ev := Call_publish_msg 1 (VStr "comm_msg") VNone VNone VNone [])
      (out := inr VNone) (w2 := sample_w1) (log := []);
      [apply run_refl | reflexivity].
  - reflexivity.
Qed.

Lemma registry_entries_persist_witness :
  sample_reachable (Some sample_lib) [] [(1%positive, sample_call)] sample_w1 ∧
  run sample_init sample_factory sample_file sample_w1
    [(2%positive, sample_call)] sample_w2 ∧
  orphan_comm_stacks sample_w1 !! 1%positive =
    Some (stacktrace_of sample_file sample_call) ∧
  orphan_comm_stacks sample_w2 !! 1%positive =
    Some (stacktrace_of sample_file sample_call).
Proof.
  split; [apply sample_reachable_1|]. split; [apply sample_run_1_2|].
  split; [reflexivity|].
  apply (registry_entries_persist sample_init sample_factory sample_file
           (Some sample_lib) [] _ sample_w1 _ sample_w2 1 _
           sample_reachable_1 sample_run_1_2).
  reflexivity.
Defined.

Lemma registry_defined_unconditionally_witness :
  orphan_comm_stacks sample_w0 = ∅ ∧
  sample_reachable None [] [] sample_f0 ∧
  orphan_comm_stacks sample_f0 = ∅ ∧
  ∀ ev out w', sample_step sample_f0 ev = Some (out, w') →
               orphan_comm_stacks w' = ∅.
Proof.
  assert (Hreach : sample_reachable None [] [] sample_f0) by apply run_refl.
  split.
  - exact (proj1 (registry_defined_unconditionally sample_init sample_factory
                    sample_file (Some sample_lib) [])).
  - split; [exact Hreach|].
    destruct (registry_defined_unconditionally sample_init sample_factory
                sample_file None []) as [_ Hall].
    destruct (Hall _ _ Hreach) as (Hreg & _ & Hstep).
    split; [exact Hreg | exact Hstep].
Defined.

Lemma registry_size_counts_returns_witness :
  sample_reachable (Some sample_lib) [] [(1%positive, sample_call)] sample_w1 ∧
  size (orphan_comm_stacks sample_w1) = 1 ∧
  NoDup [1%positive].
Proof.
  split; [apply sample_reachable_1|].
  apply (registry_size_counts_returns sample_init sample_factory sample_file
           (Some sample_lib) [] _ sample_w1 sample_reachable_1).
Defined.

Lemma tracked_instances_stay_live_witness :
  sample_reachable (Some sample_lib) [] [(1%positive, sample_call)] sample_w1 ∧
  (1%positive, sample_call) ∈ [(1%positive, sample_call)] ∧
  run sample_init sample_factory sample_file sample_w1
    [(2%positive, sample_call)] sample_w2 ∧
  heap sample_w2 !! 1%positive = Some DummyComm_noop ∧
  sample_step sample_w2 (Collect 1) = None.
Proof.
  split; [apply sample_reachable_1|]. split; [constructor|].
  split; [apply sample_run_1_2|].
  apply (tracked_instances_stay_live sample_init sample_factory sample_file
           (Some sample_lib) [] _ sample_w1 [(2%positive, sample_call)]
           sample_w2 1 sample_call sample_reachable_1).
  - constructor.
  - apply sample_run_1_2.
Defined.

Lemma publish_msg_silent_on_all_instances_witness :
  sample_reachable (Some sample_lib) [] [(1%positive, sample_call)] sample_w1 ∧
  is_Some (heap sample_w1 !! 1%positive) ∧
  sample_step sample_w1
    (Call_publish_msg 1 (VStr "comm_close") VNone VNone VNone
       [("ident", VStr "x")]) = Some (inr VNone, sample_w1).
Proof.
  split; [apply sample_reachable_1|].
  assert (Hlive : is_Some (heap sample_w1 !! 1%positive)) by (eexists; reflexivity).
  split; [exact Hlive|].
  apply (publish_msg_silent_on_all_instances sample_init sample_factory
           sample_file sample_lib [] _ sample_w1 1 _ _ _ _ _
           sample_reachable_1 Hlive).
Defined.

Lemma library_factory_never_called_witness :
  sample_reachable (Some sample_lib) [] [(1%positive, sample_call)] sample_w1 ∧
  reachable sample_init (λ _ _ s, (s, inl (mkExn "RuntimeError" "no manager")))
    sample_file (Some sample_lib) [] [(1%positive, sample_call)] sample_w1.
Proof.
  split; [apply sample_reachable_1|].
  exact (proj1 (library_factory_never_called sample_init sample_factory
                  (λ _ _ s, (s, inl (mkExn "RuntimeError" "no manager")))
                  sample_file (Some sample_lib) [] _ sample_w1
                  sample_reachable_1)).
Defined.

